(** * solarApp: solar energy estimator -- shallow embedding and verification

    The embedded program is [solarApp.py]: two irradiance providers (PVGIS,
    NASA POWER), the energy / sizing / financial formulas, and the handler of
    the "Estimate Solar Potential" button.

    Modelling conventions.
    - Python floats are idealised as exact rationals [Q]; equality of
      computed values is [Qeq] ([==]).  Rounding error, NaN and infinities
      are outside the model.
    - Python ints are [Z].
    - A Python call that may raise returns [result]; the handler, which
      also talks to the outside world, runs in the trace monad [io]. *)

From Stdlib Require Import QArith Qround Qpower Qabs Lqa Lia ZArith List String Bool.
Import ListNotations.

Open Scope Q_scope.

(** ** Exceptions and fallible results *)

Inductive exn : Type :=
| ValueError (msg : string)
| ZeroDivisionError
| KeyError
| TypeError
| AttributeError
| IndexError
| GeocoderError
| RequestException
| JSONDecodeError
| OverflowError.

Inductive result (A : Type) : Type :=
| Ok (a : A)
| Raise (e : exn).

Arguments Ok {A} a.
Arguments Raise {A} e.

Definition rbind {A B} (c : result A) (k : A -> result B) : result B :=
  match c with
  | Ok a => k a
  | Raise e => Raise e
  end.

Declare Scope result_scope.
Delimit Scope result_scope with result.
Notation "x <- c ;; k" := (rbind c (fun x => k))
  (at level 61, c at next level, right associativity) : result_scope.
Notation "' pat <- c ;; k" := (rbind c (fun x => match x with pat => k end))
  (at level 61, pat pattern, c at next level, right associativity) : result_scope.

Fixpoint mapM {A B} (f : A -> result B) (l : list A) : result (list B) :=
  match l with
  | [] => Ok []
  | x :: t => (y <- f x ;; ys <- mapM f t ;; Ok (y :: ys))%result
  end.

(** ** Python / numpy numeric primitives *)

Module Py.

Definition Qlt_bool (x y : Q) : bool := negb (Qle_bool y x).

(** [a / b] on floats. *)
Definition truediv (a b : Q) : result Q :=
  if Qeq_bool b 0 then Raise ZeroDivisionError else Ok (a / b).

(** [a ** n] for a float base and an int exponent. *)
Definition pow (a : Q) (n : Z) : result Q :=
  if Qeq_bool a 0 && (n <? 0)%Z then Raise ZeroDivisionError else Ok (a ^ n).

(** Nearest integer, ties to the even neighbour. *)
Definition round_half_even (x : Q) : Z :=
  let f := Qfloor x in
  let d := x - inject_Z f in
  if Qlt_bool d (1 # 2) then f
  else if Qlt_bool (1 # 2) d then (f + 1)%Z
  else if Z.even f then f else (f + 1)%Z.

(** [round(x, 2)]. *)
Definition round2 (x : Q) : Q := inject_Z (round_half_even (x * 100)) / 100.

(** [int(np.ceil(x))]. *)
Definition ceil (x : Q) : Z := Qceiling x.

(** [range(a, b)] on ints. *)
Definition range (a b : Z) : list Z :=
  map (fun i => (a + Z.of_nat i)%Z) (seq 0 (Z.to_nat (b - a))).

(** [sum(l)] on floats; the accumulator starts at the int 0. *)
Definition sum (l : list Q) : Q := fold_left Qplus l 0.

(** [np.cumsum]. *)
Fixpoint cumsum_from (acc : Q) (l : list Q) : list Q :=
  match l with
  | [] => []
  | x :: t => (acc + x) :: cumsum_from (acc + x) t
  end.

Definition cumsum (l : list Q) : list Q := cumsum_from 0 l.

(** [np.argmax] on a boolean array: index of the first [True], 0 when
    there is none. *)
Fixpoint argmax (l : list bool) : nat :=
  match l with
  | [] => O
  | b :: t => if b then O else if existsb id t then S (argmax t) else O
  end.

(** [a[-1]]. *)
Definition last_item (l : list Q) : result Q :=
  match rev l with
  | [] => Raise IndexError
  | x :: _ => Ok x
  end.

End Py.

(** ** Energy and financial estimations (lines 49-69) *)

Definition estimate_energy_potential (irradiance area_m2 panel_efficiency : Q) : Q :=
  irradiance * 365 * area_m2 * panel_efficiency.

Definition panel_wattage : Q := 350.
Definition PSH : Q := 4.5.

Definition size_components (energy_kWh_per_year : Q) : result (Z * Q * Q) :=
  (daily_energy <- Py.truediv energy_kWh_per_year 365 ;;
   panel_output <- Py.truediv (panel_wattage * PSH) 1000 ;;
   panels_needed <- Py.truediv daily_energy panel_output ;;
   inverter_size_kW <- Py.truediv daily_energy PSH ;;
   let battery_size_kWh := daily_energy * 0.5 in
   Ok (Py.ceil panels_needed, Py.round2 inverter_size_kW, Py.round2 battery_size_kWh))%result.

Definition default_lifetime : Z := 25.

Definition calculate_lcoe (total_cost annual_energy_kWh : Q) (system_lifetime : Z) : result Q :=
  Py.truediv total_cost (annual_energy_kWh * inject_Z system_lifetime).

Definition cash_flow (annual_savings interest_rate : Q) (year : Z) : result Q :=
  (growth <- Py.pow (1 + interest_rate) year ;;
   Py.truediv annual_savings growth)%result.

Definition calculate_discounted_payback
    (total_cost annual_savings interest_rate : Q) (lifetime : Z) : result (option Z) :=
  (cash_flows <- mapM (cash_flow annual_savings interest_rate) (Py.range 1 (lifetime + 1)) ;;
   let cumulative := Py.cumsum cash_flows in
   final <- Py.last_item cumulative ;;
   if Py.Qlt_bool final total_cost then Ok None
   else Ok (Some (Z.of_nat (Py.argmax (map (fun c => Qle_bool total_cost c) cumulative)) + 1)%Z))%result.

(** ** Pricing (lines 98-103 of the handler) *)

Definition cost_per_watt : Q := 0.5.
Definition bos_cost : Q := 0.15.
Definition battery_cost : Q := 200.

Definition system_capacity_kW (panels : Z) : Q := inject_Z panels * 0.35.

Definition total_cost (panels : Z) (battery_kWh : Q) : Q :=
  system_capacity_kW panels * (cost_per_watt + bos_cost) * 1000
  + battery_kWh * battery_cost.

(** ** JSON bodies as [response.json()] returns them *)

#[warnings="-register-all"] Inductive json : Type :=
| JNull
| JBool (b : bool)
| JNum (q : Q)
| JStr (s : string)
| JArr (items : list json)
| JObj (fields : list (string * json)).

Module PyJson.

(** Items of a dict in insertion order; keys are distinct, the first
    binding of a key is the one a lookup finds. *)
Fixpoint lookup (k : string) (fields : list (string * json)) : option json :=
  match fields with
  | [] => None
  | (k', v) :: t => if String.eqb k k' then Some v else lookup k t
  end.

(** [d[k]] with a string key. *)
Definition getitem (d : json) (k : string) : result json :=
  match d with
  | JObj fields =>
      match lookup k fields with
      | Some v => Ok v
      | None => Raise KeyError
      end
  | _ => Raise TypeError
  end.

(** The elements a [for] loop (or a comprehension) visits. *)
Definition iter (x : json) : result (list json) :=
  match x with
  | JArr items => Ok items
  | JObj fields => Ok (map (fun kv => JStr (fst kv)) fields)
  | JStr s => Ok (map (fun c => JStr (String c EmptyString)) (list_ascii_of_string s))
  | _ => Raise TypeError
  end.

(** [d.values()]. *)
Definition values (d : json) : result (list json) :=
  match d with
  | JObj fields => Ok (map snd fields)
  | _ => Raise AttributeError
  end.

(** A value that [+] accepts next to a number. *)
Definition number (v : json) : result Q :=
  match v with
  | JNum q => Ok q
  | JBool b => Ok (if b then 1 else 0)
  | _ => Raise TypeError
  end.

Section Float.
(** [float(s)] on a string, left to the caller. *)
Variable parse_float : string -> option Q.

(** [float(v)]. *)
Definition to_float (v : json) : result Q :=
  match v with
  | JNum q => Ok q
  | JBool b => Ok (if b then 1 else 0)
  | JStr s =>
      match parse_float s with
      | Some q => Ok q
      | None => Raise (ValueError "could not convert string to float")
      end
  | _ => Raise TypeError
  end.
End Float.

End PyJson.

(** ** The outside world: geocoder, the two HTTP services, the UI *)

Inductive source : Type := PVGIS | NASA_POWER.

Inductive geocode_outcome : Type :=
| GeocoderFailed
| NoMatch
| Match (latitude longitude : Q).

Inductive http_outcome : Type :=
| ConnectionFailed
| NotJson
| Json (data : json).

Record services : Type := {
  geocode : string -> geocode_outcome;
  http_get : source -> Q -> Q -> http_outcome;
  parse_float : string -> option Q
}.

Inductive callee : Type :=
| Fn_estimate_energy_potential
| Fn_size_components
| Fn_calculate_lcoe
| Fn_calculate_discounted_payback.

Inductive ui : Type :=
| MdCoordinates (lat lon : Q)
| SuccessPvgis
| WarningNasaFallback
| Subheader
| MdIrradiance (v : Q)
| MdEnergy (v : Q)
| MdComponents (panels : Z) (inverter_kW battery_kWh : Q)
| MdCost (c : Q)
| MdLcoe (l : Q)
| MdPayback (p : option Z)
| ErrorMsg (e : exn).

Inductive event : Type :=
| Geocode (location : string)
| HttpGet (s : source) (lat lon : Q)
| Call (f : callee)
| St (u : ui).

(** ** The trace monad: what happened so far, and a result or an exception *)

Definition io (A : Type) : Type := list event -> result A * list event.

Module IO.

Definition ret {A} (a : A) : io A := fun tr => (Ok a, tr).

Definition bind {A B} (c : io A) (k : A -> io B) : io B :=
  fun tr =>
    match c tr with
    | (Ok a, tr') => k a tr'
    | (Raise e, tr') => (Raise e, tr')
    end.

Definition emit (e : event) : io unit := fun tr => (Ok tt, tr ++ [e]).

Definition raise {A} (e : exn) : io A := fun tr => (Raise e, tr).

Definition lift {A} (r : result A) : io A := fun tr => (r, tr).

(** [try: c  except: h]. *)
Definition try_except {A} (c : io A) (h : exn -> io A) : io A :=
  fun tr =>
    match c tr with
    | (Ok a, tr') => (Ok a, tr')
    | (Raise e, tr') => h e tr'
    end.

(** A call of one of the module's functions, recorded in the trace. *)
Definition call {A} (f : callee) (r : result A) : io A :=
  fun tr => (r, tr ++ [Call f]).

End IO.

Declare Scope io_scope.
Delimit Scope io_scope with io.
Notation "x <- c ;; k" := (IO.bind c (fun x => k))
  (at level 61, c at next level, right associativity) : io_scope.
Notation "' pat <- c ;; k" := (IO.bind c (fun x => match x with pat => k end))
  (at level 61, pat pattern, c at next level, right associativity) : io_scope.
Notation "c ;;; k" := (IO.bind c (fun _ => k))
  (at level 61, right associativity) : io_scope.

(** [try: r  except Exception: raise e']. *)
Definition reraise_as {A} (r : result A) (e' : exn) : result A :=
  match r with
  | Ok a => Ok a
  | Raise _ => Raise e'
  end.

(** ** Location utility (lines 8-13) *)

Definition get_coordinates (sv : services) (location : string) : io (Q * Q) :=
  (IO.emit (Geocode location) ;;;
   match geocode sv location with
   | GeocoderFailed => IO.raise GeocoderError
   | NoMatch =>
       IO.raise (ValueError "Could not find location. Please enter a valid city or region.")
   | Match lat lon => IO.ret (lat, lon)
   end)%io.

(** ** PVGIS, the primary provider (lines 16-30) *)

Definition pvgis_daily_average (sv : services) (data : json) : result Q :=
  (outputs <- PyJson.getitem data "outputs" ;;
   hourly <- PyJson.getitem outputs "hourly" ;;
   rows <- PyJson.iter hourly ;;
   irradiance_values <-
     mapM (fun i => g <- PyJson.getitem i "G(i)" ;; PyJson.to_float (parse_float sv) g) rows ;;
   annual_irradiance <- Py.truediv (Py.sum irradiance_values) 1000 ;;
   daily <- Py.truediv annual_irradiance 365 ;;
   Ok (Py.round2 daily))%result.

Definition get_irradiance_pvgis (sv : services) (lat lon : Q) : io Q :=
  (IO.emit (HttpGet PVGIS lat lon) ;;;
   match http_get sv PVGIS lat lon with
   | ConnectionFailed => IO.raise RequestException
   | NotJson => IO.raise JSONDecodeError
   | Json data => IO.lift (reraise_as (pvgis_daily_average sv data) (ValueError "PVGIS failed"))
   end)%io.

(** ** NASA POWER, the fallback provider (lines 33-46) *)

Definition nasa_daily_average (data : json) : result Q :=
  (properties <- PyJson.getitem data "properties" ;;
   parameter <- PyJson.getitem properties "parameter" ;;
   monthly <- PyJson.getitem parameter "ALLSKY_SFC_SW_DWN" ;;
   values <- PyJson.values monthly ;;
   numbers <- mapM PyJson.number values ;;
   avg_daily_irradiance <- Py.truediv (Py.sum numbers) (inject_Z (Z.of_nat (List.length values))) ;;
   Ok (Py.round2 avg_daily_irradiance))%result.

Definition get_irradiance_nasa (sv : services) (lat lon : Q) : io Q :=
  (IO.emit (HttpGet NASA_POWER lat lon) ;;;
   match http_get sv NASA_POWER lat lon with
   | ConnectionFailed => IO.raise RequestException
   | NotJson => IO.raise JSONDecodeError
   | Json data =>
       IO.lift (reraise_as (nasa_daily_average data) (ValueError "NASA POWER fallback also failed"))
   end)%io.

(** ** The button handler (lines 83-119) *)

Record inputs : Type := {
  location : string;
  area_m2 : Q;
  interest_rate : Q;
  panel_efficiency : Q
}.

(** Lines 88-93: the inner [try] / bare [except]. *)
Definition acquire_irradiance (sv : services) (lat lon : Q) : io Q :=
  IO.try_except
    (irradiance <- get_irradiance_pvgis sv lat lon ;;
     IO.emit (St SuccessPvgis) ;;;
     IO.ret irradiance)%io
    (fun _ =>
       (irradiance <- get_irradiance_nasa sv lat lon ;;
        IO.emit (St WarningNasaFallback) ;;;
        IO.ret irradiance)%io).

(** Lines 95-116: everything after the irradiance is known. *)
Definition report_estimates (inp : inputs) (irradiance : Q) : io unit :=
  (energy_kWh <- IO.call Fn_estimate_energy_potential
     (Ok (estimate_energy_potential irradiance (area_m2 inp) (panel_efficiency inp))) ;;
   '(panels, inverter_kW, battery_kWh) <- IO.call Fn_size_components (size_components energy_kWh) ;;
   let cost := total_cost panels battery_kWh in
   lcoe <- IO.call Fn_calculate_lcoe (calculate_lcoe cost energy_kWh default_lifetime) ;;
   let savings := energy_kWh * 0.15 in
   payback <- IO.call Fn_calculate_discounted_payback
     (calculate_discounted_payback cost savings (interest_rate inp) default_lifetime) ;;
   IO.emit (St Subheader) ;;;
   IO.emit (St (MdIrradiance irradiance)) ;;;
   IO.emit (St (MdEnergy energy_kWh)) ;;;
   IO.emit (St (MdComponents panels inverter_kW battery_kWh)) ;;;
   IO.emit (St (MdCost cost)) ;;;
   IO.emit (St (MdLcoe lcoe)) ;;;
   IO.emit (St (MdPayback payback)))%io.

(** Lines 85-116: the body of the outer [try]. *)
Definition estimate_body (sv : services) (inp : inputs) : io unit :=
  ('(lat, lon) <- get_coordinates sv (location inp) ;;
   IO.emit (St (MdCoordinates lat lon)) ;;;
   irradiance <- acquire_irradiance sv lat lon ;;
   report_estimates inp irradiance)%io.

(** Line 118-119: the outer [except Exception as e]. *)
Definition show_error (e : exn) : io unit := IO.emit (St (ErrorMsg e)).

(** Lines 83-119: one click on "Estimate Solar Potential". *)
Definition on_estimate_click (sv : services) (inp : inputs) : io unit :=
  IO.try_except (estimate_body sv inp) show_error.

(** The events one click produces, from an empty trace. *)
Definition run (sv : services) (inp : inputs) : list event :=
  snd (on_estimate_click sv inp []).

(** * The estimation functions in IEEE binary64 arithmetic

    The definitions above compute with exact rationals.  What follows
    models the same source lines with doubles: every operation rounds to
    the nearest double (ties to even), overflows to an infinity, and raises
    where Python raises (division by zero, [**] out of range, [int] of an
    infinity or NaN).  Properties that depend on rounding, overflow or
    underflow are stated on this model. *)

Module F64.

(** A double: a finite value (a rational), an infinity, or NaN.  Signed
    zeros are not distinguished. *)
Inductive t : Type :=
| Fin (q : Q)
| PInf
| NInf
| NaN.

(** Exponent of the smallest subnormal, 2^-1074. *)
Definition emin : Z := -1074.

(** floor(log2 q) for q > 0. *)
Definition ilog2 (q : Q) : Z :=
  let k := (Z.log2 (Qnum q) - Z.log2 (Zpos (Qden q)))%Z in
  if Qle_bool (2 ^ k) q then k else (k - 1)%Z.

(** Exponent of the unit in the last place of the binade of q > 0: 53
    significant bits, not below 2^-1074. *)
Definition ulp_exp (q : Q) : Z := Z.max emin (ilog2 q - 52).

(** Round to nearest, ties to even, for q > 0, with unbounded exponent. *)
Definition round_pos (q : Q) : Q :=
  let e := ulp_exp q in
  inject_Z (Py.round_half_even (q / 2 ^ e)) * 2 ^ e.

Definition round_fin (q : Q) : Q :=
  match q ?= 0 with
  | Eq => 0
  | Gt => round_pos q
  | Lt => - round_pos (- q)
  end.

(** The largest finite double. *)
Definition fmax : Q := (2 ^ 53 - 1) * 2 ^ 971.

(** The double nearest to q; beyond the largest finite double, an
    infinity.  Finite results are stored in lowest terms. *)
Definition rnd (q : Q) : t :=
  let r := Qred (round_fin q) in
  if Qle_bool r fmax then (if Qle_bool (- fmax) r then Fin r else NInf) else PInf.


(** A decimal literal of the source. *)
Definition lit (q : Q) : t := rnd q.

(** An int where a float is needed. *)
Definition of_int (z : Z) : result t :=
  match rnd (inject_Z z) with
  | Fin r => Ok (Fin r)
  | _ => Raise OverflowError
  end.

(** [a + b], [a * b]. *)
Definition add (a b : t) : t :=
  match a, b with
  | NaN, _ | _, NaN => NaN
  | Fin x, Fin y => rnd (x + y)
  | PInf, NInf | NInf, PInf => NaN
  | PInf, _ | _, PInf => PInf
  | NInf, _ | _, NInf => NInf
  end.

Definition scale_inf (positive : bool) (q : Q) : t :=
  match q ?= 0 with
  | Eq => NaN
  | Gt => if positive then PInf else NInf
  | Lt => if positive then NInf else PInf
  end.

Definition mul (a b : t) : t :=
  match a, b with
  | NaN, _ | _, NaN => NaN
  | Fin x, Fin y => rnd (x * y)
  | PInf, Fin y | Fin y, PInf => scale_inf true y
  | NInf, Fin y | Fin y, NInf => scale_inf false y
  | PInf, PInf | NInf, NInf => PInf
  | PInf, NInf | NInf, PInf => NInf
  end.

Definition is_zero (a : t) : bool :=
  match a with
  | Fin y => Qeq_bool y 0
  | _ => false
  end.

(** [a / b] on floats. *)
Definition truediv (a b : t) : result t :=
  if is_zero b then Raise ZeroDivisionError
  else Ok match a, b with
          | NaN, _ | _, NaN => NaN
          | Fin x, Fin y => rnd (x / y)
          | Fin _, _ => Fin 0
          | PInf, Fin y => scale_inf true y
          | NInf, Fin y => scale_inf false y
          | _, _ => NaN
          end.

(** [a ** n] for a float base and an int exponent; C's pow is taken as
    correctly rounded. *)
Definition pow (a : t) (n : Z) : result t :=
  if (n =? 0)%Z then Ok (Fin 1)
  else match a with
       | NaN => Ok NaN
       | PInf => Ok (if (0 <? n)%Z then PInf else Fin 0)
       | NInf => Ok (if (0 <? n)%Z then (if Z.odd n then NInf else PInf) else Fin 0)
       | Fin x =>
           if Qeq_bool x 0
           then (if (n <? 0)%Z then Raise ZeroDivisionError else Ok (Fin 0))
           else match rnd (x ^ n) with
                | Fin r => Ok (Fin r)
                | _ => Raise OverflowError
                end
       end.

(** [a < b], [a <= b], [a >= b]; false as soon as one side is NaN. *)
Definition ltb (a b : t) : bool :=
  match a, b with
  | NaN, _ | _, NaN => false
  | Fin x, Fin y => Py.Qlt_bool x y
  | NInf, NInf | PInf, _ => false
  | NInf, _ | _, PInf => true
  | _, NInf => false
  end.

Definition leb (a b : t) : bool :=
  match a, b with
  | NaN, _ | _, NaN => false
  | Fin x, Fin y => Qle_bool x y
  | NInf, _ | _, PInf => true
  | _, _ => false
  end.

Definition geb (a b : t) : bool := leb b a.

(** [int(np.ceil(a))]. *)
Definition ceil_int (a : t) : result Z :=
  match a with
  | Fin x => Ok (Qceiling x)
  | NaN => Raise (ValueError "cannot convert float NaN to integer")
  | _ => Raise OverflowError
  end.

(** [round(a, 2)]: the double nearest to the decimal rounding of [a]. *)
Definition round2 (a : t) : t :=
  match a with
  | Fin x => rnd (inject_Z (Py.round_half_even (x * 100)) / 100)
  | _ => a
  end.

(** [np.cumsum] on an array of doubles: sequential additions. *)
Fixpoint cumsum_from (acc : t) (l : list t) : list t :=
  match l with
  | [] => []
  | x :: rest => add acc x :: cumsum_from (add acc x) rest
  end.

(** The first element is the first entry itself. *)
Definition cumsum (l : list t) : list t :=
  match l with
  | [] => []
  | x :: rest => x :: cumsum_from x rest
  end.

(** [a[-1]]. *)
Definition last_item (l : list t) : result t :=
  match rev l with
  | [] => Raise IndexError
  | x :: _ => Ok x
  end.

(** *** The estimation functions in double arithmetic (lines 49-69, 98-103) *)

Definition estimate_energy_potential (irradiance area_m2 panel_efficiency : t) : t :=
  mul (mul (mul irradiance (Fin 365)) area_m2) panel_efficiency.

Definition size_components (energy_kWh_per_year : t) : result (Z * t * t) :=
  (daily_energy <- truediv energy_kWh_per_year (Fin 365) ;;
   let PSH := lit 4.5 in
   panel_output <- truediv (mul (Fin 350) PSH) (Fin 1000) ;;
   panels_needed <- truediv daily_energy panel_output ;;
   inverter_size_kW <- truediv daily_energy PSH ;;
   let battery_size_kWh := mul daily_energy (lit 0.5) in
   panels <- ceil_int panels_needed ;;
   Ok (panels, round2 inverter_size_kW, round2 battery_size_kWh))%result.

Definition calculate_lcoe (total_cost annual_energy_kWh : t) (system_lifetime : Z) : result t :=
  (lifetime <- of_int system_lifetime ;;
   truediv total_cost (mul annual_energy_kWh lifetime))%result.

Definition cash_flow (annual_savings interest_rate : t) (year : Z) : result t :=
  (growth <- pow (add (Fin 1) interest_rate) year ;;
   truediv annual_savings growth)%result.

Definition calculate_discounted_payback
    (total_cost annual_savings interest_rate : t) (lifetime : Z) : result (option Z) :=
  (cash_flows <- mapM (cash_flow annual_savings interest_rate) (Py.range 1 (lifetime + 1)) ;;
   let cumulative := cumsum cash_flows in
   final <- last_item cumulative ;;
   if ltb final total_cost then Ok None
   else Ok (Some (Z.of_nat (Py.argmax (map (fun c => geb c total_cost) cumulative)) + 1)%Z))%result.

Definition system_capacity_kW (panels : Z) : result t :=
  (p <- of_int panels ;; Ok (mul p (lit 0.35)))%result.

Definition total_cost (panels : Z) (battery_kWh : t) : result t :=
  (capacity <- system_capacity_kW panels ;;
   Ok (add (mul (mul capacity (add (lit 0.5) (lit 0.15))) (Fin 1000))
           (mul battery_kWh (Fin 200))))%result.

End F64.

(** * Notions the properties are stated with *)

(** [r] is [x] rounded to two decimals: a whole number of hundredths, at
    most half a hundredth away from [x]. *)
Definition rounded_to_2_decimals (x r : Q) : Prop :=
  (exists k : Z, r == inject_Z k / 100) /\ Qabs (r - x) <= 1 # 200.

(** The discounted cash flow of year [y]: annualSavings / (1 + rate)^y. *)
Definition discounted_cash_flow (annualSavings interestRate : Q) (y : nat) : Q :=
  annualSavings / (1 + interestRate) ^ Z.of_nat y.

(** The running cumulative sum of the discounted cash flows of years
    1..[n]. *)
Fixpoint cumulative_savings (annualSavings interestRate : Q) (n : nat) : Q :=
  match n with
  | O => 0
  | S k => cumulative_savings annualSavings interestRate k
           + discounted_cash_flow annualSavings interestRate (S k)
  end.

(** Payback years ordered by "equal or later"; not recovered ([None]) is
    later than every year. *)
Definition payback_le (p1 p2 : option Z) : Prop :=
  match p1, p2 with
  | _, None => True
  | Some y1, Some y2 => (y1 <= y2)%Z
  | None, Some _ => False
  end.

(** An [io] computation only appends to the trace, and what it does is
    independent of the trace it starts from. *)
Definition framed {A} (c : io A) : Prop :=
  forall t, c t = (fst (c []), t ++ snd (c [])).

(** A framed computation all of whose events satisfy [P]. *)
Definition emits {A} (P : event -> Prop) (c : io A) : Prop :=
  framed c /\ Forall P (snd (c [])).

(** Events of the stages after irradiance acquisition: calls of the
    estimation functions, the result lines, the error line. *)
Definition downstream_event (e : event) : Prop :=
  match e with
  | Call _ => True
  | St Subheader | St (MdIrradiance _) | St (MdEnergy _) | St (MdComponents _ _ _)
  | St (MdCost _) | St (MdLcoe _) | St (MdPayback _) | St (ErrorMsg _) => True
  | _ => False
  end.

(** What a click shows once the irradiance is [v]: the downstream stages
    under the outer [except]. *)
Definition finish (inp : inputs) (v : Q) : list event :=
  snd (IO.try_except (report_estimates inp v) show_error []).

(** A PVGIS body whose hourly series is empty. *)
Definition empty_hourly_body : json :=
  JObj [("outputs"%string, JObj [("hourly"%string, JArr [])])].

(** A NASA POWER body with the given monthly values. *)
Definition nasa_body (months : list (string * json)) : json :=
  JObj [("properties"%string,
         JObj [("parameter"%string, JObj [("ALLSKY_SFC_SW_DWN"%string, JObj months)])])].

(** A world where PVGIS is unreachable and NASA POWER answers with twelve
    monthly values. *)
Definition services_pvgis_down : services :=
  {| geocode := fun _ => Match 5.56 (-0.2);
     http_get := fun s _ _ =>
       match s with
       | PVGIS => ConnectionFailed
       | NASA_POWER =>
           Json (nasa_body [("JAN"%string, JNum 5.1); ("FEB"%string, JNum 5.4);
                            ("MAR"%string, JNum 5.5); ("APR"%string, JNum 5.6);
                            ("MAY"%string, JNum 5.2); ("JUN"%string, JNum 4.4);
                            ("JUL"%string, JNum 4.3); ("AUG"%string, JNum 4.5);
                            ("SEP"%string, JNum 4.9); ("OCT"%string, JNum 5.3);
                            ("NOV"%string, JNum 5.2); ("DEC"%string, JNum 4.9)])
       end;
     parse_float := fun _ => None |}.

(** The form's default inputs. *)
Definition default_inputs : inputs :=
  {| location := "Accra, Ghana"; area_m2 := 100; interest_rate := 0.08;
     panel_efficiency := 0.18 |}.

(** A world where PVGIS answers with an empty hourly series. *)
Definition services_pvgis_empty (lat lon : Q) (nasa : http_outcome)
    (float_of_string : string -> option Q) : services :=
  {| geocode := fun _ => Match lat lon;
     http_get := fun s _ _ =>
       match s with
       | PVGIS => Json empty_hourly_body
       | NASA_POWER => nasa
       end;
     parse_float := float_of_string |}.

(** The providers a trace contacted, in order. *)
Fixpoint provider_calls (tr : list event) : list source :=
  match tr with
  | [] => []
  | HttpGet s _ _ :: t => s :: provider_calls t
  | _ :: t => provider_calls t
  end.

(** What the form's number inputs accept (lines 78-80): area at least 1,
    interest rate at least 0, panel efficiency between 0.1 and 0.25. *)
Definition form_accepts (inp : inputs) : Prop :=
  1 <= area_m2 inp /\ 0 <= interest_rate inp
  /\ 0.1 <= panel_efficiency inp <= 0.25.

(** The lines of the results block (lines 110-116). *)
Definition result_line (e : event) : Prop :=
  match e with
  | St Subheader | St (MdIrradiance _) | St (MdEnergy _) | St (MdComponents _ _ _)
  | St (MdCost _) | St (MdLcoe _) | St (MdPayback _) => True
  | _ => False
  end.

(** The error line of the outer [except] (line 119). *)
Definition error_line (e : event) : Prop :=
  match e with
  | St (ErrorMsg _) => True
  | _ => False
  end.

(** A PVGIS body with the given hourly rows. *)
Definition pvgis_body (rows : list json) : json :=
  JObj [("inputs"%string, JNull); ("outputs"%string, JObj [("hourly"%string, JArr rows)])].

(** An hourly row as PVGIS sends it, with irradiance [g]. *)
Definition pvgis_row (g : Q) : json :=
  JObj [("time"%string, JStr "20200101:0010"); ("G(i)"%string, JNum g);
        ("T2m"%string, JNum 25.3)].

(** A world where PVGIS answers with three hourly rows. *)
Definition services_pvgis_up : services :=
  {| geocode := fun _ => Match 5.56 (-0.2);
     http_get := fun s _ _ =>
       match s with
       | PVGIS => Json (pvgis_body [pvgis_row 0; pvgis_row 912500; pvgis_row 912500])
       | NASA_POWER => ConnectionFailed
       end;
     parse_float := fun _ => None |}.

(** A world where the geocoder finds nothing. *)
Definition services_no_match : services :=
  {| geocode := fun _ => NoMatch;
     http_get := fun _ _ _ => ConnectionFailed;
     parse_float := fun _ => None |}.

(** A world where PVGIS is unreachable and NASA POWER answers with an
    empty series. *)
Definition services_nasa_empty : services :=
  {| geocode := fun _ => Match 5.56 (-0.2);
     http_get := fun s _ _ =>
       match s with
       | PVGIS => ConnectionFailed
       | NASA_POWER => Json (nasa_body [])
       end;
     parse_float := fun _ => None |}.

(** Order on doubles; nothing compares with NaN. *)
Definition fle (a b : F64.t) : Prop :=
  match a, b with
  | F64.NaN, _ | _, F64.NaN => False
  | F64.Fin x, F64.Fin y => x <= y
  | F64.NInf, _ | _, F64.PInf => True
  | _, _ => False
  end.

(** [q] is exactly the value of a finite double. *)
Definition is_double (q : Q) : Prop := exists r, F64.rnd q = F64.Fin r /\ r == q.

(** [r] is the double [x] rounded to two decimals as [round(x, 2)] does:
    the double nearest to a whole number of hundredths that is at most
    half a hundredth away from [x]. *)
Definition rounded_to_2_decimals_double (x : Q) (r : F64.t) : Prop :=
  exists k : Z, Qabs (inject_Z k / 100 - x) <= 1 # 200 /\ r = F64.rnd (inject_Z k / 100).

(** The double of the source's [panel_wattage * PSH / 1000]. *)
Definition per_panel_double : Q := 7093169413108531 # 4503599627370496.

(** * Verification *)

(** ** Arithmetic helpers *)

Ltac Qnonzero := let H := fresh in intro H; vm_compute in H; discriminate H.

Lemma truediv_ok (a b : Q) : ~ b == 0 -> Py.truediv a b = Ok (a / b).
Proof.
  intro Hb. unfold Py.truediv.
  destruct (Qeq_bool b 0) eqn:E; [|reflexivity].
  apply Qeq_bool_eq in E. contradiction.
Qed.

Lemma truediv_zero (a b : Q) : b == 0 -> Py.truediv a b = Raise ZeroDivisionError.
Proof.
  intro Hb. unfold Py.truediv. rewrite (Qeq_eq_bool _ _ Hb). reflexivity.
Qed.

Lemma Qlt_bool_iff (x y : Q) : Py.Qlt_bool x y = true <-> x < y.
Proof.
  unfold Py.Qlt_bool. rewrite negb_true_iff.
  destruct (Qle_bool y x) eqn:E.
  - apply Qle_bool_iff in E. split; [discriminate | intro; lra].
  - split; [intros _ | reflexivity].
    apply Qnot_le_lt. intro H. apply Qle_bool_iff in H. congruence.
Qed.

Lemma Qlt_bool_false_iff (x y : Q) : Py.Qlt_bool x y = false <-> y <= x.
Proof.
  unfold Py.Qlt_bool. rewrite negb_false_iff. apply Qle_bool_iff.
Qed.

Lemma round_half_even_near (x : Q) :
  x - (1 # 2) <= inject_Z (Py.round_half_even x) <= x + (1 # 2).
Proof.
  unfold Py.round_half_even.
  pose proof (Qfloor_le x) as Hlo. pose proof (Qlt_floor x) as Hhi.
  rewrite inject_Z_plus in Hhi. change (inject_Z 1) with 1 in Hhi.
  destruct (Py.Qlt_bool (x - inject_Z (Qfloor x)) (1 # 2)) eqn:E1.
  { apply Qlt_bool_iff in E1. split; lra. }
  apply Qlt_bool_false_iff in E1.
  destruct (Py.Qlt_bool (1 # 2) (x - inject_Z (Qfloor x))) eqn:E2.
  { rewrite inject_Z_plus. change (inject_Z 1) with 1. split; lra. }
  apply Qlt_bool_false_iff in E2.
  destruct (Z.even (Qfloor x)).
  - split; lra.
  - rewrite inject_Z_plus. change (inject_Z 1) with 1. split; lra.
Qed.

Lemma round_half_even_nonneg (x : Q) : 0 <= x -> (0 <= Py.round_half_even x)%Z.
Proof.
  intro Hx. unfold Py.round_half_even.
  assert (H0 : (0 <= Qfloor x)%Z).
  { change 0%Z with (Qfloor 0). apply Qfloor_resp_le. exact Hx. }
  destruct (Py.Qlt_bool _ _); [exact H0|].
  destruct (Py.Qlt_bool _ _); [lia|].
  destruct (Z.even _); lia.
Qed.

Lemma round2_nonneg (x : Q) : 0 <= x -> 0 <= Py.round2 x.
Proof.
  intro Hx. unfold Py.round2.
  assert (H : (0 <= Py.round_half_even (x * 100))%Z).
  { apply round_half_even_nonneg. nra. }
  apply Qle_shift_div_l; [reflexivity|].
  rewrite Qmult_0_l. change 0 with (inject_Z 0). rewrite <- Zle_Qle. exact H.
Qed.

Lemma round2_rounded (x : Q) : rounded_to_2_decimals x (Py.round2 x).
Proof.
  split.
  - exists (Py.round_half_even (x * 100)). reflexivity.
  - unfold Py.round2. pose proof (round_half_even_near (x * 100)) as [Hlo Hhi].
    set (k := inject_Z (Py.round_half_even (x * 100))) in *.
    apply Qabs_Qle_condition. split.
    + apply Qle_minus_iff. 
      setoid_replace (k / 100 - x + - - (1 # 200)) with ((k - (x * 100 - (1#2))) / 100) by field.
      apply Qle_shift_div_l; [reflexivity | lra].
    + apply Qle_minus_iff.
      setoid_replace ((1 # 200) + - (k / 100 - x)) with ((x * 100 + (1#2) - k) / 100) by field.
      apply Qle_shift_div_l; [reflexivity | lra].
Qed.

(** ** Energy estimate *)



(** ** Component sizing *)

Lemma size_components_ok (energy : Q) :
  size_components energy =
  Ok (Qceiling (energy / 365 / (panel_wattage * PSH / 1000)),
      Py.round2 (energy / 365 / PSH),
      Py.round2 (energy / 365 * 0.5)).
Proof.
  unfold size_components.
  rewrite (truediv_ok energy 365) by Qnonzero. cbn [rbind].
  rewrite (truediv_ok (panel_wattage * PSH) 1000) by Qnonzero. cbn [rbind].
  rewrite truediv_ok by Qnonzero. cbn [rbind].
  rewrite truediv_ok by Qnonzero. cbn [rbind].
  reflexivity.
Qed.

Lemma Qceiling_nonneg (x : Q) : 0 <= x -> (0 <= Qceiling x)%Z.
Proof.
  intro Hx. change 0%Z with (Qceiling 0). apply Qceiling_resp_le. exact Hx.
Qed.

Lemma Qceiling_bounds (x : Q) : inject_Z (Qceiling x) - 1 < x <= inject_Z (Qceiling x).
Proof.
  split; [|apply Qle_ceiling].
  pose proof (Qceiling_lt x) as H.
  unfold Z.sub in H. rewrite inject_Z_plus in H. exact H.
Qed.



(** ** Pricing *)

(** C4. The capacity used in pricing is panels x 0.35 kW, that is panels x
    the 350 W of [size_components] expressed in kW, and the total cost is
    capacity x (0.5 + 0.15) x 1000 + battery x 200. *)
Theorem pricing_formula (panelsNeeded : Z) (batteryCapacityKWh : Q) :
  system_capacity_kW panelsNeeded == inject_Z panelsNeeded * 0.35
  /\ system_capacity_kW panelsNeeded == inject_Z panelsNeeded * panel_wattage / 1000
  /\ total_cost panelsNeeded batteryCapacityKWh
     == system_capacity_kW panelsNeeded * (0.5 + 0.15) * 1000 + batteryCapacityKWh * 200.
Proof.
  unfold total_cost, system_capacity_kW, panel_wattage, cost_per_watt, bos_cost, battery_cost.
  repeat split; try reflexivity. field.
Qed.

(** ** Levelized cost of energy *)



(** ** Non-negative cost and LCOE *)



(** ** Discounted payback: the lists the function builds *)

Lemma range_from_1 (n : nat) : Py.range 1 (Z.of_nat n + 1) = map Z.of_nat (seq 1 n).
Proof.
  unfold Py.range.
  replace (Z.to_nat (Z.of_nat n + 1 - 1)) with n by lia.
  rewrite <- seq_shift, map_map.
  apply map_ext. intro i. lia.
Qed.

Lemma mapM_map {A B} (f : A -> result B) (g : A -> B) (l : list A) :
  (forall x, In x l -> f x = Ok (g x)) -> mapM f l = Ok (map g l).
Proof.
  induction l as [|x t IH]; intro H; [reflexivity|].
  cbn [mapM map]. rewrite (H x (or_introl eq_refl)). cbn [rbind].
  rewrite IH by (intros y Hy; apply H; right; exact Hy).
  reflexivity.
Qed.

Lemma last_item_cons (a : Q) (l : list Q) : l <> [] -> Py.last_item (a :: l) = Py.last_item l.
Proof.
  intro Hl. unfold Py.last_item. cbn [rev].
  destruct (rev l) as [|x l'] eqn:E; [|reflexivity].
  exfalso. apply Hl. rewrite <- (rev_involutive l), E. reflexivity.
Qed.

Lemma argmax_first (f : nat -> bool) (a n : nat) :
  existsb id (map f (seq a n)) = true ->
  let i := Py.argmax (map f (seq a n)) in
  (i < n)%nat /\ f (a + i)%nat = true /\ forall j, (a <= j < a + i)%nat -> f j = false.
Proof.
  revert a. induction n as [|n IH]; intros a Hex; [discriminate|].
  cbn [seq map Py.argmax existsb] in *.
  destruct (f a) eqn:Fa.
  - cbn. rewrite Nat.add_0_r. repeat split; [lia | exact Fa | intros; lia].
  - change (existsb id (map f (seq (S a) n)) = true) in Hex.
    rewrite Hex. destruct (IH (S a) Hex) as (Hlt & Htrue & Hbefore).
    cbn zeta. repeat split.
    + lia.
    + replace (a + S (Py.argmax (map f (seq (S a) n))))%nat
        with (S a + Py.argmax (map f (seq (S a) n)))%nat by lia.
      exact Htrue.
    + intros j Hj. destruct (Nat.eq_dec j a) as [->|Hne]; [exact Fa|].
      apply Hbefore. lia.
Qed.

Lemma existsb_seq_true (f : nat -> bool) (a n j : nat) :
  (a <= j < a + n)%nat -> f j = true -> existsb id (map f (seq a n)) = true.
Proof.
  intros Hj Fj. apply existsb_exists. exists true. split; [|reflexivity].
  apply in_map_iff. exists j. split; [exact Fj|]. apply in_seq. exact Hj.
Qed.

Section Payback.

Variables totalCost annualSavings interestRate : Q.
Hypothesis rate_above_minus_1 : 0 < 1 + interestRate.

Local Notation "'dcf'" := (discounted_cash_flow annualSavings interestRate).
Local Notation "'cum'" := (cumulative_savings annualSavings interestRate).

Lemma growth_positive (y : nat) : 0 < (1 + interestRate) ^ Z.of_nat y.
Proof. apply Qpower_0_lt. exact rate_above_minus_1. Qed.

Lemma cash_flow_ok (y : nat) :
  cash_flow annualSavings interestRate (Z.of_nat y) = Ok (dcf y).
Proof.
  unfold cash_flow, Py.pow.
  destruct (Qeq_bool (1 + interestRate) 0) eqn:E.
  { apply Qeq_bool_eq in E. rewrite E in rate_above_minus_1. discriminate. }
  cbn [andb rbind]. apply truediv_ok.
  pose proof (growth_positive y) as H. intro H0. rewrite H0 in H. discriminate.
Qed.

Lemma cash_flows_ok (n : nat) :
  mapM (cash_flow annualSavings interestRate) (Py.range 1 (Z.of_nat n + 1))
  = Ok (map dcf (seq 1 n)).
Proof.
  rewrite range_from_1.
  rewrite (mapM_map _ (fun y => dcf (Z.to_nat y))).
  - rewrite map_map. f_equal. apply map_ext. intro y. rewrite Nat2Z.id. reflexivity.
  - intros y Hy. apply in_map_iff in Hy. destruct Hy as (k & <- & _).
    rewrite Nat2Z.id. apply cash_flow_ok.
Qed.

(** Comparing the running sums with a threshold gives the same flags as
    comparing [cumulative_savings]. *)
Lemma cumsum_flags (m k : nat) (acc : Q) :
  acc == cum k ->
  map (Qle_bool totalCost) (Py.cumsum_from acc (map dcf (seq (S k) m)))
  = map (fun j => Qle_bool totalCost (cum j)) (seq (S k) m).
Proof.
  revert k acc. induction m as [|m IH]; intros k acc Hacc; [reflexivity|].
  cbn [seq map Py.cumsum_from].
  assert (Hstep : acc + dcf (S k) == cum (S k)).
  { cbn [cumulative_savings]. rewrite Hacc. reflexivity. }
  f_equal.
  - apply Qleb_comp; [reflexivity | exact Hstep].
  - apply IH. exact Hstep.
Qed.

Lemma cumsum_last (m k : nat) (acc : Q) :
  acc == cum k ->
  exists final,
    Py.last_item (Py.cumsum_from acc (map dcf (seq (S k) (S m)))) = Ok final
    /\ final == cum (S k + m).
Proof.
  revert k acc. induction m as [|m IH]; intros k acc Hacc.
  - exists (acc + dcf (S k)). split; [reflexivity|].
    rewrite Nat.add_0_r. cbn [cumulative_savings]. rewrite Hacc. reflexivity.
  - change (seq (S k) (S (S m))) with (S k :: seq (S (S k)) (S m)).
    cbn [map Py.cumsum_from]. rewrite last_item_cons by (cbn; discriminate).
    destruct (IH (S k) (acc + dcf (S k))) as (final & Hlast & Hfinal).
    { cbn [cumulative_savings]. rewrite Hacc. reflexivity. }
    exists final. split; [exact Hlast|].
    rewrite Hfinal. replace (S (S k) + m)%nat with (S k + S m)%nat by lia. reflexivity.
Qed.

(** What [calculate_discounted_payback] returns, in terms of
    [cumulative_savings]. *)
Lemma payback_characterisation (n : nat) :
  (1 <= n)%nat ->
  exists res,
    calculate_discounted_payback totalCost annualSavings interestRate (Z.of_nat n) = Ok res
    /\ match res with
       | None => cum n < totalCost
       | Some y =>
           exists k, y = Z.of_nat k /\ (1 <= k <= n)%nat
                     /\ totalCost <= cum n
                     /\ totalCost <= cum k
                     /\ forall j, (1 <= j < k)%nat -> cum j < totalCost
       end.
Proof.
  intro Hn. destruct n as [|m]; [lia|].
  unfold calculate_discounted_payback.
  rewrite cash_flows_ok. cbn [rbind]. unfold Py.cumsum.
  destruct (cumsum_last m 0 0) as (final & Hlast & Hfinal); [reflexivity|].
  rewrite Hlast. cbn [rbind].
  rewrite cumsum_flags by reflexivity.
  change (1 + m)%nat with (S m) in Hfinal.
  destruct (Py.Qlt_bool final totalCost) eqn:E.
  - exists None. split; [reflexivity|].
    apply Qlt_bool_iff in E. rewrite <- Hfinal. exact E.
  - apply Qlt_bool_false_iff in E. rewrite Hfinal in E.
    set (f := fun j => Qle_bool totalCost (cum j)).
    assert (Hex : existsb id (map f (seq 1 (S m))) = true).
    { apply (existsb_seq_true f 1 (S m) (S m)); [lia|].
      apply Qle_bool_iff. exact E. }
    destruct (argmax_first f 1 (S m) Hex) as (Hlt & Htrue & Hbefore).
    eexists (Some _). split; [reflexivity|].
    exists (S (Py.argmax (map f (seq 1 (S m))))). repeat split.
    + lia.
    + lia.
    + lia.
    + exact E.
    + apply Qle_bool_iff. exact Htrue.
    + intros j Hj. apply Qnot_le_lt. intro Hle.
      apply Qle_bool_iff in Hle.
      assert (Hf : f j = false) by (apply Hbefore; lia).
      unfold f in Hf. congruence.
Qed.

Hypothesis savings_nonneg : 0 <= annualSavings.

Lemma dcf_nonneg (y : nat) : 0 <= dcf y.
Proof.
  unfold discounted_cash_flow.
  apply Qle_shift_div_l; [apply growth_positive|]. lra.
Qed.

Lemma cum_nonneg (n : nat) : 0 <= cum n.
Proof.
  induction n as [|n IH]; [discriminate|].
  cbn [cumulative_savings]. pose proof (dcf_nonneg (S n)). lra.
Qed.

Lemma cum_monotone (j k : nat) : (j <= k)%nat -> cum j <= cum k.
Proof.
  induction 1 as [|k _ IH]; [apply Qle_refl|].
  cbn [cumulative_savings]. pose proof (dcf_nonneg (S k)) as Hk.
  apply Qle_trans with (1 := IH). lra.
Qed.

End Payback.

(** ** Discounted payback: dependence on the interest rate *)

Lemma Qpower_succ (a : Q) (y : nat) : a ^ Z.of_nat (S y) == a ^ Z.of_nat y * a.
Proof.
  rewrite Nat2Z.inj_succ. unfold Z.succ.
  rewrite Qpower_plus' by lia. rewrite Qpower_1_r. reflexivity.
Qed.

Lemma Qmult_le_compat_l_nonneg (z x y : Q) : 0 <= z -> x <= y -> z * x <= z * y.
Proof.
  intros Hz Hxy. rewrite (Qmult_comm z x), (Qmult_comm z y).
  apply Qmult_le_compat_r; assumption.
Qed.

Lemma Qpower_base_monotone (a b : Q) (y : nat) :
  0 < a -> a <= b -> a ^ Z.of_nat y <= b ^ Z.of_nat y.
Proof.
  intros Ha Hab. induction y as [|y IH]; [discriminate|].
  rewrite !Qpower_succ.
  pose proof (Qpower_0_lt a (Z.of_nat y) Ha) as Hpa.
  apply Qle_trans with (a ^ Z.of_nat y * b).
  - apply Qmult_le_compat_l_nonneg; [lra | exact Hab].
  - apply Qmult_le_compat_r; [exact IH | lra].
Qed.

Lemma Qdiv_antitone (s p q : Q) : 0 <= s -> 0 < p -> p <= q -> s / q <= s / p.
Proof.
  intros Hs Hp Hpq.
  assert (Hq : 0 < q) by lra.
  apply Qle_shift_div_r; [exact Hq|].
  assert (Hx : 0 <= s / p) by (apply Qle_shift_div_l; lra).
  setoid_replace s with (s / p * p) at 1 by (field; intro H0; rewrite H0 in Hp; discriminate).
  apply Qmult_le_compat_l_nonneg; assumption.
Qed.

Lemma dcf_antitone_rate (s r1 r2 : Q) (y : nat) :
  0 <= s -> 0 < 1 + r1 -> r1 <= r2 ->
  discounted_cash_flow s r2 y <= discounted_cash_flow s r1 y.
Proof.
  intros Hs Hr1 Hr. unfold discounted_cash_flow.
  apply Qdiv_antitone; [exact Hs | apply Qpower_0_lt; exact Hr1 |].
  apply Qpower_base_monotone; lra.
Qed.

Lemma cum_antitone_rate (s r1 r2 : Q) (n : nat) :
  0 <= s -> 0 < 1 + r1 -> r1 <= r2 ->
  cumulative_savings s r2 n <= cumulative_savings s r1 n.
Proof.
  intros Hs Hr1 Hr. induction n as [|n IH]; [discriminate|].
  cbn [cumulative_savings].
  apply Qplus_le_compat; [exact IH | apply dcf_antitone_rate; assumption].
Qed.

Lemma dcf_le_savings (s r : Q) (y : nat) :
  0 <= s -> 0 <= r -> discounted_cash_flow s r y <= s.
Proof.
  intros Hs Hr. unfold discounted_cash_flow.
  assert (H1 : 1 <= (1 + r) ^ Z.of_nat y) by (apply Qpower_1_le; [lra | lia]).
  apply Qle_shift_div_r; [lra|].
  setoid_replace s with (s * 1) at 1 by ring.
  apply Qmult_le_compat_l_nonneg; assumption.
Qed.

Lemma cum_le_undiscounted (s r : Q) (n : nat) :
  0 <= s -> 0 <= r -> cumulative_savings s r n <= inject_Z (Z.of_nat n) * s.
Proof.
  intros Hs Hr. induction n as [|n IH]; [change (0 <= 0 * s); lra|].
  cbn [cumulative_savings]. rewrite Nat2Z.inj_succ. unfold Z.succ.
  rewrite inject_Z_plus. change (inject_Z 1) with 1.
  pose proof (dcf_le_savings s r (S n) Hs Hr) as Hd.
  apply Qle_trans with (inject_Z (Z.of_nat n) * s + s); [|ring_simplify; apply Qle_refl].
  apply Qplus_le_compat; assumption.
Qed.








(** ** The trace monad: computations only append events *)

Section Emits.

Variable P : event -> Prop.

Lemma emits_ret {A} (a : A) : emits P (IO.ret a).
Proof.
  split; [|constructor].
  intro t. unfold IO.ret. cbn. rewrite app_nil_r. reflexivity.
Qed.

Lemma emits_raise {A} (e : exn) : emits P (@IO.raise A e).
Proof.
  split; [|constructor].
  intro t. unfold IO.raise. cbn. rewrite app_nil_r. reflexivity.
Qed.

Lemma emits_lift {A} (r : result A) : emits P (IO.lift r).
Proof.
  split; [|constructor].
  intro t. unfold IO.lift. cbn. rewrite app_nil_r. reflexivity.
Qed.

Lemma emits_emit (e : event) : P e -> emits P (IO.emit e).
Proof.
  intro He. split; [intro t; reflexivity|].
  cbn. constructor; [exact He | constructor].
Qed.

Lemma emits_call {A} (f : callee) (r : result A) : P (Call f) -> emits P (IO.call f r).
Proof.
  intro He. split; [intro t; reflexivity|].
  cbn. constructor; [exact He | constructor].
Qed.

Lemma emits_bind {A B} (c : io A) (k : A -> io B) :
  emits P c -> (forall a, emits P (k a)) -> emits P (IO.bind c k).
Proof.
  intros [Hc Pc] Hk. split.
  - intro t. unfold IO.bind. rewrite (Hc t).
    destruct (c []) as [[a|e] l]; cbn [fst snd].
    + destruct (Hk a) as [Hka _]. rewrite (Hka (t ++ l)), (Hka l).
      cbn [fst snd]. rewrite app_assoc. reflexivity.
    + reflexivity.
  - unfold IO.bind. destruct (c []) as [[a|e] l]; cbn [fst snd] in *; [|exact Pc].
    destruct (Hk a) as [Hka Pka]. rewrite (Hka l). cbn [snd].
    apply Forall_app. split; assumption.
Qed.

Lemma emits_try_except {A} (c : io A) (h : exn -> io A) :
  emits P c -> (forall e, emits P (h e)) -> emits P (IO.try_except c h).
Proof.
  intros [Hc Pc] Hh. split.
  - intro t. unfold IO.try_except. rewrite (Hc t).
    destruct (c []) as [[a|e] l]; cbn [fst snd]; [reflexivity|].
    destruct (Hh e) as [Hhe _]. rewrite (Hhe (t ++ l)), (Hhe l).
    cbn [fst snd]. rewrite app_assoc. reflexivity.
  - unfold IO.try_except. destruct (c []) as [[a|e] l]; cbn [fst snd] in *; [exact Pc|].
    destruct (Hh e) as [Hhe Phe]. rewrite (Hhe l). cbn [snd].
    apply Forall_app. split; assumption.
Qed.

End Emits.

Lemma framed_run {A} (P : event -> Prop) (c : io A) (t : list event) :
  emits P c -> c t = (fst (c []), t ++ snd (c [])).
Proof. intros [H _]. apply H. Qed.

(** ** The two providers and the fallback *)

Lemma get_irradiance_pvgis_run (sv : services) (lat lon : Q) (t : list event) :
  get_irradiance_pvgis sv lat lon t
  = (fst (get_irradiance_pvgis sv lat lon []), t ++ [HttpGet PVGIS lat lon]).
Proof.
  unfold get_irradiance_pvgis, IO.bind, IO.emit, IO.raise, IO.lift.
  destruct (http_get sv PVGIS lat lon); reflexivity.
Qed.

Lemma get_irradiance_nasa_run (sv : services) (lat lon : Q) (t : list event) :
  get_irradiance_nasa sv lat lon t
  = (fst (get_irradiance_nasa sv lat lon []), t ++ [HttpGet NASA_POWER lat lon]).
Proof.
  unfold get_irradiance_nasa, IO.bind, IO.emit, IO.raise, IO.lift.
  destruct (http_get sv NASA_POWER lat lon); reflexivity.
Qed.

Lemma acquire_irradiance_run (sv : services) (lat lon : Q) (t : list event) :
  acquire_irradiance sv lat lon t =
  match fst (get_irradiance_pvgis sv lat lon []) with
  | Ok v => (Ok v, t ++ [HttpGet PVGIS lat lon; St SuccessPvgis])
  | Raise _ =>
      match fst (get_irradiance_nasa sv lat lon []) with
      | Ok v => (Ok v, t ++ [HttpGet PVGIS lat lon; HttpGet NASA_POWER lat lon;
                             St WarningNasaFallback])
      | Raise e => (Raise e, t ++ [HttpGet PVGIS lat lon; HttpGet NASA_POWER lat lon])
      end
  end.
Proof.
  unfold acquire_irradiance, IO.try_except, IO.bind.
  rewrite get_irradiance_pvgis_run.
  destruct (fst (get_irradiance_pvgis sv lat lon [])) as [v|e].
  - unfold IO.emit, IO.ret. rewrite <- app_assoc. reflexivity.
  - rewrite get_irradiance_nasa_run.
    destruct (fst (get_irradiance_nasa sv lat lon [])) as [v|e'].
    + unfold IO.emit, IO.ret. rewrite <- !app_assoc. reflexivity.
    + rewrite <- app_assoc. reflexivity.
Qed.

(** ** The downstream stages *)

Lemma report_estimates_emits (inp : inputs) (v : Q) :
  emits downstream_event (report_estimates inp v).
Proof.
  unfold report_estimates.
  apply emits_bind; [apply emits_call; exact I | intro energy].
  apply emits_bind; [apply emits_call; exact I | intros [[panels inverter] battery]].
  apply emits_bind; [apply emits_call; exact I | intro lcoe].
  apply emits_bind; [apply emits_call; exact I | intro payback].
  repeat (apply emits_bind; [apply emits_emit; exact I | intros _]).
  apply emits_emit. exact I.
Qed.

Lemma finish_downstream (inp : inputs) (v : Q) : Forall downstream_event (finish inp v).
Proof.
  unfold finish.
  apply (emits_try_except downstream_event).
  - apply report_estimates_emits.
  - intro e. apply emits_emit. exact I.
Qed.

Lemma finish_run (inp : inputs) (v : Q) (t : list event) :
  snd (IO.try_except (report_estimates inp v) show_error t) = t ++ finish inp v.
Proof.
  rewrite (framed_run downstream_event).
  - reflexivity.
  - apply emits_try_except; [apply report_estimates_emits|].
    intro e. apply emits_emit. exact I.
Qed.

Lemma downstream_no_provider (l : list event) :
  Forall downstream_event l -> provider_calls l = [].
Proof.
  induction 1 as [|e l He _ IH]; [reflexivity|].
  destruct e as [loc|s lat lon|f|u]; cbn in He |- *; try contradiction; exact IH.
Qed.

Lemma downstream_no_source_tag (l : list event) :
  Forall downstream_event l ->
  ~ In (St SuccessPvgis) l /\ ~ In (St WarningNasaFallback) l.
Proof.
  intro H. rewrite Forall_forall in H.
  split; intro Hin; apply H in Hin; exact Hin.
Qed.

(** ** One click, case by case *)

Lemma run_shape (sv : services) (inp : inputs) (lat lon : Q) :
  geocode sv (location inp) = Match lat lon ->
  run sv inp =
  [Geocode (location inp); St (MdCoordinates lat lon)] ++
  match fst (get_irradiance_pvgis sv lat lon []) with
  | Ok v => [HttpGet PVGIS lat lon; St SuccessPvgis] ++ finish inp v
  | Raise _ =>
      match fst (get_irradiance_nasa sv lat lon []) with
      | Ok v => [HttpGet PVGIS lat lon; HttpGet NASA_POWER lat lon; St WarningNasaFallback]
                ++ finish inp v
      | Raise e => [HttpGet PVGIS lat lon; HttpGet NASA_POWER lat lon; St (ErrorMsg e)]
      end
  end.
Proof.
  intro Hgeo.
  unfold run, on_estimate_click, estimate_body, get_coordinates.
  unfold IO.try_except at 1. unfold IO.bind at 1 2 3 4. unfold IO.emit at 1 2.
  rewrite Hgeo. unfold IO.ret at 1. cbn [app].
  rewrite acquire_irradiance_run.
  destruct (fst (get_irradiance_pvgis sv lat lon [])) as [v|e].
  - cbn [app].
    pose proof (finish_run inp v
      [Geocode (location inp); St (MdCoordinates lat lon); HttpGet PVGIS lat lon;
       St SuccessPvgis]) as Hf.
    unfold IO.try_except in Hf.
    destruct (report_estimates inp v _) as [[u|e] t']; cbn [snd] in Hf |- *; exact Hf.
  - destruct (fst (get_irradiance_nasa sv lat lon [])) as [v|e'].
    + cbn [app].
      pose proof (finish_run inp v
        [Geocode (location inp); St (MdCoordinates lat lon); HttpGet PVGIS lat lon;
         HttpGet NASA_POWER lat lon; St WarningNasaFallback]) as Hf.
      unfold IO.try_except in Hf.
      destruct (report_estimates inp v _) as [[u|e2] t']; cbn [snd] in Hf |- *; exact Hf.
    + reflexivity.
Qed.

Lemma run_without_coordinates (sv : services) (inp : inputs) :
  (forall lat lon, geocode sv (location inp) <> Match lat lon) ->
  exists e, run sv inp = [Geocode (location inp); St (ErrorMsg e)].
Proof.
  intro Hgeo.
  unfold run, on_estimate_click, estimate_body, get_coordinates.
  unfold IO.try_except at 1. unfold IO.bind at 1 2. unfold IO.emit at 1.
  destruct (geocode sv (location inp)) as [| |lat lon].
  - eexists. reflexivity.
  - eexists. reflexivity.
  - exfalso. exact (Hgeo lat lon eq_refl).
Qed.

(** ** Fallback policy *)

(** C1. In every run the providers contacted are none (no coordinates),
    PVGIS alone, or PVGIS and then NASA POWER: the Primary is attempted
    first.  In a run that has coordinates: when the Primary call raises,
    NASA POWER (Fallback) is contacted exactly once, after it, and no PVGIS
    source line is shown; if the Fallback returns, its value is the
    irradiance and the fallback warning is shown; if the Fallback raises
    too, the run ends with that error shown to the user and
    [estimate_energy_potential] is never called. *)
Theorem fallback_policy (sv : services) (inp : inputs) :
  let tr := run sv inp in
  (provider_calls tr = [] \/ provider_calls tr = [PVGIS]
   \/ provider_calls tr = [PVGIS; NASA_POWER])
  /\ forall lat lon,
       geocode sv (location inp) = Match lat lon ->
       let primary := fst (get_irradiance_pvgis sv lat lon []) in
       let fallback := fst (get_irradiance_nasa sv lat lon []) in
       (exists rest,
          tr = [Geocode (location inp); St (MdCoordinates lat lon); HttpGet PVGIS lat lon]
               ++ rest)
       /\ (forall v, primary = Ok v ->
             provider_calls tr = [PVGIS] /\ In (St SuccessPvgis) tr)
       /\ (forall e, primary = Raise e ->
             provider_calls tr = [PVGIS; NASA_POWER]
             /\ ~ In (St SuccessPvgis) tr
             /\ (forall v, fallback = Ok v ->
                   acquire_irradiance sv lat lon []
                     = (Ok v, [HttpGet PVGIS lat lon; HttpGet NASA_POWER lat lon;
                               St WarningNasaFallback])
                   /\ In (St WarningNasaFallback) tr)
             /\ (forall e', fallback = Raise e' ->
                   tr = [Geocode (location inp); St (MdCoordinates lat lon);
                         HttpGet PVGIS lat lon; HttpGet NASA_POWER lat lon;
                         St (ErrorMsg e')]
                   /\ ~ In (Call Fn_estimate_energy_potential) tr)).
Proof.
  intro tr.
  assert (Hcases : forall lat lon,
    geocode sv (location inp) = Match lat lon ->
    let primary := fst (get_irradiance_pvgis sv lat lon []) in
    (forall v, primary = Ok v -> provider_calls tr = [PVGIS] /\ In (St SuccessPvgis) tr)
    /\ (forall e, primary = Raise e -> provider_calls tr = [PVGIS; NASA_POWER])).
  { intros lat lon Hgeo primary.
    pose proof (run_shape sv inp lat lon Hgeo) as Hrun. fold primary tr in Hrun.
    split.
    - intros v Hv. rewrite Hv in Hrun. rewrite Hrun. split.
      + cbn [app provider_calls].
        rewrite (downstream_no_provider _ (finish_downstream inp v)). reflexivity.
      + cbn [app In]. auto.
    - intros e He. rewrite He in Hrun. rewrite Hrun.
      destruct (fst (get_irradiance_nasa sv lat lon [])) as [v|e']; [|reflexivity].
      cbn [app provider_calls].
      rewrite (downstream_no_provider _ (finish_downstream inp v)). reflexivity. }
  split.
  - destruct (geocode sv (location inp)) as [| |lat lon] eqn:Hgeo.
    + destruct (run_without_coordinates sv inp) as [e He].
      { intros lat lon. rewrite Hgeo. discriminate. }
      left. unfold tr. rewrite He. reflexivity.
    + destruct (run_without_coordinates sv inp) as [e He].
      { intros lat lon. rewrite Hgeo. discriminate. }
      left. unfold tr. rewrite He. reflexivity.
    + destruct (Hcases lat lon eq_refl) as [Hok Hfail].
      destruct (fst (get_irradiance_pvgis sv lat lon [])) as [v|e].
      * right. left. exact (proj1 (Hok v eq_refl)).
      * right. right. exact (Hfail e eq_refl).
  - intros lat lon Hgeo primary fallback.
    destruct (Hcases lat lon Hgeo) as [Hok Hfail]. fold primary in Hok, Hfail.
    pose proof (run_shape sv inp lat lon Hgeo) as Hrun.
    fold primary fallback tr in Hrun.
    split; [|split; [exact Hok|]].
    + destruct primary as [v|e]; [|destruct fallback as [v|e']];
        rewrite Hrun; eexists; cbn [app]; reflexivity.
    + intros e He. split; [exact (Hfail e He)|].
      rewrite He in Hrun.
      pose proof (acquire_irradiance_run sv lat lon []) as Hacq.
      fold primary fallback in Hacq. rewrite He in Hacq.
      destruct fallback as [v|e'].
      * pose proof (finish_downstream inp v) as Hdown.
        destruct (downstream_no_source_tag _ Hdown) as [Hno_pvgis _].
        rewrite Hrun. cbn [app]. split; [|split].
        -- cbn [In]. intros [H|[H|[H|[H|[H|H]]]]]; try discriminate H.
           exact (Hno_pvgis H).
        -- intros v' Hv'. injection Hv' as <-. split; [exact Hacq|].
           cbn [In]. auto 6.
        -- intros e' He'. discriminate He'.
      * rewrite Hrun. cbn [app]. split; [|split].
        -- cbn [In]. intros [H|[H|[H|[H|[H|H]]]]]; try discriminate H. exact H.
        -- intros v Hv. discriminate Hv.
        -- intros e2 He2. injection He2 as <-. split; [reflexivity|].
           cbn [In]. intros [H|[H|[H|[H|[H|H]]]]]; try discriminate H. exact H.
Qed.

Lemma fallback_policy_witness :
  provider_calls (run services_pvgis_down default_inputs) = [PVGIS; NASA_POWER]
  /\ ~ In (St SuccessPvgis) (run services_pvgis_down default_inputs)
  /\ In (St WarningNasaFallback) (run services_pvgis_down default_inputs).
Proof.
  destruct (fallback_policy services_pvgis_down default_inputs) as [_ Hrun].
  destruct (Hrun 5.56 (-0.2) eq_refl) as (_ & _ & Hfail).
  destruct (Hfail RequestException eq_refl) as (Hcalls & Hno & Hok & _).
  split; [exact Hcalls|]. split; [exact Hno|].
  refine (proj2 (Hok 5.02 _)). vm_compute. reflexivity.
Defined.

(** ** Empty hourly series from PVGIS *)

Lemma nasa_empty_series_fails (sv : services) (lat lon : Q) :
  http_get sv NASA_POWER lat lon = Json (nasa_body []) ->
  fst (get_irradiance_nasa sv lat lon [])
  = Raise (ValueError "NASA POWER fallback also failed").
Proof.
  intro H. unfold get_irradiance_nasa, IO.bind, IO.emit. rewrite H. reflexivity.
Qed.

Lemma calculate_lcoe_zero_energy (cost energy : Q) (lifetime : Z) :
  energy == 0 -> calculate_lcoe cost energy lifetime = Raise ZeroDivisionError.
Proof.
  intro H. unfold calculate_lcoe. apply truediv_zero. rewrite H. ring.
Qed.

(** C8 does not hold of the code.  When PVGIS answers with an empty hourly
    series, [get_irradiance_pvgis] raises nothing: it returns 0.00, the run
    shows the PVGIS source line, NASA POWER is never contacted, and the run
    ends in the ZeroDivisionError of [calculate_lcoe]. *)
Theorem pvgis_empty_series_accepted
    (lat lon : Q) (nasa : http_outcome) (float_of_string : string -> option Q)
    (inp : inputs) :
  let sv := services_pvgis_empty lat lon nasa float_of_string in
  fst (get_irradiance_pvgis sv lat lon []) = Ok 0.00
  /\ run sv inp =
     [Geocode (location inp); St (MdCoordinates lat lon); HttpGet PVGIS lat lon;
      St SuccessPvgis; Call Fn_estimate_energy_potential; Call Fn_size_components;
      Call Fn_calculate_lcoe; St (ErrorMsg ZeroDivisionError)]
  /\ provider_calls (run sv inp) = [PVGIS].
Proof.
  intro sv.
  assert (Hprimary : fst (get_irradiance_pvgis sv lat lon []) = Ok 0.00).
  { vm_compute. reflexivity. }
  assert (Hrun : run sv inp =
     [Geocode (location inp); St (MdCoordinates lat lon); HttpGet PVGIS lat lon;
      St SuccessPvgis; Call Fn_estimate_energy_potential; Call Fn_size_components;
      Call Fn_calculate_lcoe; St (ErrorMsg ZeroDivisionError)]).
  { assert (Hfinish : finish inp 0.00 =
       [Call Fn_estimate_energy_potential; Call Fn_size_components;
        Call Fn_calculate_lcoe; St (ErrorMsg ZeroDivisionError)]).
    { unfold finish, report_estimates, IO.try_except, IO.bind.
      unfold IO.call at 1. cbn [app].
      unfold IO.call at 1. rewrite size_components_ok. cbn [app].
      unfold IO.call at 1.
      rewrite calculate_lcoe_zero_energy.
      - reflexivity.
      - unfold estimate_energy_potential. ring. }
    rewrite (run_shape sv inp lat lon eq_refl), Hprimary, Hfinish. reflexivity. }
  split; [exact Hprimary|]. split; [exact Hrun|].
  rewrite Hrun. reflexivity.
Qed.

(** * Further properties of the code *)

(** ** Helpers on lists of results and sums *)

Lemma mapM_Forall2 {A B} (f : A -> result B) (l : list A) (ys : list B) :
  Forall2 (fun x y => f x = Ok y) l ys -> mapM f l = Ok ys.
Proof.
  induction 1 as [|x y l ys Hxy _ IH]; [reflexivity|].
  cbn [mapM]. rewrite Hxy. cbn [rbind]. rewrite IH. reflexivity.
Qed.

Lemma mapM_raise {A B} (f : A -> result B) (l : list A) (x : A) (e : exn) :
  In x l -> f x = Raise e -> exists e', mapM f l = Raise e'.
Proof.
  intros Hin Hx. induction l as [|a t IH]; [contradiction|].
  cbn [mapM]. destruct (f a) as [b|ea] eqn:Ea; cbn [rbind].
  - destruct Hin as [->|Hin]; [congruence|].
    destruct (IH Hin) as [e' He']. rewrite He'. exists e'. reflexivity.
  - exists ea. reflexivity.
Qed.

Lemma fold_sum_bounds (lo hi : Q) (l : list Q) (acc : Q) :
  Forall (fun x => lo <= x <= hi) l ->
  acc + inject_Z (Z.of_nat (List.length l)) * lo <= fold_left Qplus l acc
  /\ fold_left Qplus l acc <= acc + inject_Z (Z.of_nat (List.length l)) * hi.
Proof.
  intro H. revert acc. induction H as [|x l [Hlo Hhi] _ IH]; intro acc.
  - cbn [fold_left List.length]. change (inject_Z (Z.of_nat 0)) with 0. split; lra.
  - cbn [fold_left List.length]. rewrite Nat2Z.inj_succ. unfold Z.succ.
    rewrite inject_Z_plus. change (inject_Z 1) with 1.
    destruct (IH (acc + x)) as [IHlo IHhi].
    set (n := inject_Z (Z.of_nat (List.length l))) in *.
    split.
    + apply Qle_trans with (2 := IHlo). ring_simplify. lra.
    + apply Qle_trans with (1 := IHhi). ring_simplify. lra.
Qed.

Lemma sum_nonneg (l : list Q) : Forall (fun x => 0 <= x) l -> 0 <= Py.sum l.
Proof.
  intro H. unfold Py.sum.
  assert (Hacc : forall acc, 0 <= acc -> 0 <= fold_left Qplus l acc).
  { induction H as [|x l Hx _ IH]; intros acc Hacc; [exact Hacc|].
    cbn [fold_left]. apply IH. lra. }
  apply Hacc. discriminate.
Qed.

Lemma round2_bounds (x : Q) : x - (1 # 200) <= Py.round2 x <= x + (1 # 200).
Proof.
  destruct (round2_rounded x) as [_ H].
  apply Qabs_Qle_condition in H. destruct H as [Hlo Hhi]. split; lra.
Qed.

(** ** PVGIS, the primary provider *)



(** X2. A PVGIS body that lacks "outputs", or whose outputs lack "hourly",
    or one of whose hourly rows lacks a usable G(i), makes
    [get_irradiance_pvgis] raise ValueError("PVGIS failed"), whatever the
    inner exception was. *)
Theorem pvgis_malformed_body_fails
    (sv : services) (lat lon : Q) (data : json) :
  http_get sv PVGIS lat lon = Json data ->
  (exists e, PyJson.getitem data "outputs" = Raise e)
  \/ (exists outputs e,
        PyJson.getitem data "outputs" = Ok outputs
        /\ PyJson.getitem outputs "hourly" = Raise e)
  \/ (exists outputs rows row e,
        PyJson.getitem data "outputs" = Ok outputs
        /\ PyJson.getitem outputs "hourly" = Ok (JArr rows)
        /\ In row rows
        /\ PyJson.getitem row "G(i)" = Raise e) ->
  fst (get_irradiance_pvgis sv lat lon []) = Raise (ValueError "PVGIS failed").
Proof.
  intros Hget Hbad.
  unfold get_irradiance_pvgis, IO.bind, IO.emit. rewrite Hget.
  unfold IO.lift. cbn [fst]. unfold pvgis_daily_average.
  destruct Hbad as [[e He] | [(outputs & e & Ho & He) | (outputs & rows & row & e & Ho & Hh & Hin & He)]].
  - rewrite He. reflexivity.
  - rewrite Ho. cbn [rbind]. rewrite He. reflexivity.
  - rewrite Ho. cbn [rbind]. rewrite Hh. cbn [rbind PyJson.iter].
    destruct (mapM_raise
                (fun i => (g <- PyJson.getitem i "G(i)" ;;
                           PyJson.to_float (parse_float sv) g)%result)
                rows row e Hin) as [e' He'].
    + rewrite He. reflexivity.
    + rewrite He'. reflexivity.
Qed.

Lemma pvgis_malformed_body_fails_witness :
  fst (get_irradiance_pvgis
         {| geocode := fun _ => NoMatch;
            http_get := fun _ _ _ => Json (pvgis_body [pvgis_row 3; JObj []]);
            parse_float := fun _ => None |} 0 0 [])
  = Raise (ValueError "PVGIS failed").
Proof.
  apply (pvgis_malformed_body_fails _ 0 0 (pvgis_body [pvgis_row 3; JObj []])).
  - reflexivity.
  - right. right.
    exists (JObj [("hourly"%string, JArr [pvgis_row 3; JObj []])]),
           [pvgis_row 3; JObj []], (JObj []), KeyError.
    repeat split. right. left. reflexivity.
Defined.

(** ** NASA POWER, the fallback provider *)



(** X4. A NASA POWER body whose ALLSKY_SFC_SW_DWN dict is empty, or holds a
    value that is not a number, makes [get_irradiance_nasa] raise
    ValueError("NASA POWER fallback also failed"). *)
Theorem nasa_unusable_values_fail
    (sv : services) (lat lon : Q) (data properties parameter : json)
    (fields : list (string * json)) :
  http_get sv NASA_POWER lat lon = Json data ->
  PyJson.getitem data "properties" = Ok properties ->
  PyJson.getitem properties "parameter" = Ok parameter ->
  PyJson.getitem parameter "ALLSKY_SFC_SW_DWN" = Ok (JObj fields) ->
  fields = [] \/ (exists kv e, In kv fields /\ PyJson.number (snd kv) = Raise e) ->
  fst (get_irradiance_nasa sv lat lon [])
  = Raise (ValueError "NASA POWER fallback also failed").
Proof.
  intros Hget Hprop Hparam Hmonthly Hbad.
  unfold get_irradiance_nasa, IO.bind, IO.emit. rewrite Hget.
  unfold IO.lift. cbn [fst]. unfold nasa_daily_average.
  rewrite Hprop. cbn [rbind]. rewrite Hparam. cbn [rbind].
  rewrite Hmonthly. cbn [rbind PyJson.values].
  destruct Hbad as [-> | (kv & e & Hin & He)].
  - reflexivity.
  - destruct (mapM_raise PyJson.number (map snd fields) (snd kv) e) as [e' He'].
    + apply in_map. exact Hin.
    + exact He.
    + rewrite He'. reflexivity.
Qed.

Lemma nasa_unusable_values_fail_witness :
  fst (get_irradiance_nasa services_nasa_empty 5.56 (-0.2) [])
  = Raise (ValueError "NASA POWER fallback also failed").
Proof.
  apply (nasa_unusable_values_fail services_nasa_empty 5.56 (-0.2) (nasa_body [])
           _ _ [] eq_refl eq_refl eq_refl eq_refl).
  left. reflexivity.
Defined.

(** ** Location utility *)

(** X5. When the geocoder finds no match, or itself fails, the run stops
    there: the only events are the geocoder call and one error line (the
    ValueError of [get_coordinates], or the geocoder's own exception); no
    provider is contacted and nothing is estimated. *)
Theorem no_coordinates_stops_run (sv : services) (inp : inputs) :
  (geocode sv (location inp) = NoMatch ->
   run sv inp =
   [Geocode (location inp);
    St (ErrorMsg (ValueError "Could not find location. Please enter a valid city or region."))])
  /\ (geocode sv (location inp) = GeocoderFailed ->
      run sv inp = [Geocode (location inp); St (ErrorMsg GeocoderError)]).
Proof.
  unfold run, on_estimate_click, estimate_body, get_coordinates.
  unfold IO.try_except at 1. unfold IO.bind at 1 2. unfold IO.emit at 1.
  split; intro Hgeo; rewrite Hgeo; reflexivity.
Qed.

Lemma no_coordinates_stops_run_witness :
  run services_no_match default_inputs =
  [Geocode "Accra, Ghana";
   St (ErrorMsg (ValueError "Could not find location. Please enter a valid city or region."))].
Proof.
  apply (proj1 (no_coordinates_stops_run services_no_match default_inputs)).
  reflexivity.
Defined.

(** ** Component sizing grows with the energy *)

Lemma round_half_even_floor_bounds (x : Q) :
  (Qfloor x <= Py.round_half_even x <= Qfloor x + 1)%Z.
Proof.
  unfold Py.round_half_even.
  destruct (Py.Qlt_bool _ _); [lia|].
  destruct (Py.Qlt_bool _ _); [lia|].
  destruct (Z.even _); lia.
Qed.

Lemma round_half_even_monotone (x y : Q) :
  x <= y -> (Py.round_half_even x <= Py.round_half_even y)%Z.
Proof.
  intro Hxy.
  pose proof (Qfloor_resp_le x y Hxy) as Hfloor.
  destruct (Z.eq_dec (Qfloor x) (Qfloor y)) as [Heq|Hne].
  - unfold Py.round_half_even. cbv zeta. rewrite <- Heq.
    destruct (Py.Qlt_bool (x - inject_Z (Qfloor x)) (1 # 2)) eqn:X1.
    { clear X1.
      destruct (Py.Qlt_bool _ _); [lia|].
      destruct (Py.Qlt_bool _ _); [lia|].
      destruct (Z.even _); lia. }
    apply Qlt_bool_false_iff in X1.
    destruct (Py.Qlt_bool (y - inject_Z (Qfloor x)) (1 # 2)) eqn:Y1.
    { apply Qlt_bool_iff in Y1. exfalso. lra. }
    destruct (Py.Qlt_bool (1 # 2) (x - inject_Z (Qfloor x))) eqn:X2.
    { apply Qlt_bool_iff in X2.
      destruct (Py.Qlt_bool (1 # 2) (y - inject_Z (Qfloor x))) eqn:Y2; [lia|].
      apply Qlt_bool_false_iff in Y2. exfalso. lra. }
    destruct (Py.Qlt_bool (1 # 2) (y - inject_Z (Qfloor x))); [|lia].
    destruct (Z.even _); lia.
  - pose proof (round_half_even_floor_bounds x).
    pose proof (round_half_even_floor_bounds y). lia.
Qed.

Lemma round2_monotone (x y : Q) : x <= y -> Py.round2 x <= Py.round2 y.
Proof.
  intro Hxy. unfold Py.round2, Qdiv.
  apply Qmult_le_compat_r; [|discriminate].
  rewrite <- Zle_Qle. apply round_half_even_monotone.
  apply Qmult_le_compat_r; [exact Hxy | discriminate].
Qed.

Lemma Qdiv_le_compat_pos (x y c : Q) : 0 < c -> x <= y -> x / c <= y / c.
Proof.
  intros Hc Hxy. unfold Qdiv.
  apply Qmult_le_compat_r; [exact Hxy|].
  apply Qlt_le_weak, Qinv_lt_0_compat. exact Hc.
Qed.



(** ** Discounted payback: edge cases *)

(** X7. With an interest rate of -1 (and a lifetime of at least one year)
    the first discounted cash flow divides by zero:
    [calculate_discounted_payback] raises ZeroDivisionError. *)
Theorem discounted_payback_rate_minus_one
    (totalCost annualSavings interestRate : Q) (lifetime : Z) :
  interestRate == -1 -> (1 <= lifetime)%Z ->
  calculate_discounted_payback totalCost annualSavings interestRate lifetime
  = Raise ZeroDivisionError.
Proof.
  intros Hr Hl. unfold calculate_discounted_payback, Py.range.
  destruct (Z.to_nat (lifetime + 1 - 1)) as [|m] eqn:Em; [lia|].
  cbn [seq map mapM]. change (1 + Z.of_nat 0)%Z with 1%Z.
  unfold cash_flow at 1. unfold Py.pow.
  change (1 <? 0)%Z with false. rewrite andb_false_r. cbn [rbind].
  rewrite truediv_zero; [reflexivity|].
  rewrite Qpower_1_r, Hr. reflexivity.
Qed.

Lemma discounted_payback_rate_minus_one_witness :
  calculate_discounted_payback 22195 4927.5 (-1) default_lifetime = Raise ZeroDivisionError.
Proof.
  apply discounted_payback_rate_minus_one; [reflexivity | discriminate].
Defined.

(** X8. With a lifetime of zero years or less there is no cash flow and
    [cumulative[-1]] raises IndexError, whatever the other arguments. *)
Theorem discounted_payback_no_years
    (totalCost annualSavings interestRate : Q) (lifetime : Z) :
  (lifetime <= 0)%Z ->
  calculate_discounted_payback totalCost annualSavings interestRate lifetime
  = Raise IndexError.
Proof.
  intro Hl. unfold calculate_discounted_payback, Py.range.
  replace (Z.to_nat (lifetime + 1 - 1)) with 0%nat by lia.
  reflexivity.
Qed.

Lemma discounted_payback_no_years_witness :
  calculate_discounted_payback 22195 4927.5 0.08 0 = Raise IndexError.
Proof.
  apply discounted_payback_no_years. discriminate.
Defined.

(** ** Discounted payback: dependence on cost and savings *)

Lemma dcf_monotone_savings (s1 s2 r : Q) (y : nat) :
  0 < 1 + r -> s1 <= s2 -> discounted_cash_flow s1 r y <= discounted_cash_flow s2 r y.
Proof.
  intros Hr Hs. unfold discounted_cash_flow.
  apply Qdiv_le_compat_pos; [apply Qpower_0_lt; exact Hr | exact Hs].
Qed.

Lemma cum_monotone_savings (s1 s2 r : Q) (n : nat) :
  0 < 1 + r -> s1 <= s2 -> cumulative_savings s1 r n <= cumulative_savings s2 r n.
Proof.
  intros Hr Hs. induction n as [|n IH]; [discriminate|].
  cbn [cumulative_savings].
  apply Qplus_le_compat; [exact IH | apply dcf_monotone_savings; assumption].
Qed.

Lemma cum_zero_savings (r : Q) (n : nat) : cumulative_savings 0 r n == 0.
Proof.
  induction n as [|n IH]; [reflexivity|].
  cbn [cumulative_savings]. rewrite IH. unfold discounted_cash_flow, Qdiv.
  rewrite Qmult_0_l. reflexivity.
Qed.

Lemma cum_zero_rate (s : Q) (n : nat) :
  cumulative_savings s 0 n == inject_Z (Z.of_nat n) * s.
Proof.
  induction n as [|n IH]; [reflexivity|].
  cbn [cumulative_savings]. rewrite IH. unfold discounted_cash_flow.
  change (1 + 0) with 1. rewrite Qpower_1.
  rewrite Nat2Z.inj_succ. unfold Z.succ. rewrite inject_Z_plus.
  change (inject_Z 1) with 1. field.
Qed.

Lemma Qceiling_unique (x : Q) (z : Z) :
  inject_Z z - 1 < x -> x <= inject_Z z -> Qceiling x = z.
Proof.
  intros Hlo Hhi.
  destruct (Qceiling_bounds x) as [Clo Chi].
  assert (H1 : inject_Z (Qceiling x) - 1 < inject_Z z) by lra.
  assert (H2 : inject_Z z - 1 < inject_Z (Qceiling x)) by lra.
  assert (H1' : inject_Z (Qceiling x) < inject_Z (z + 1)).
  { rewrite inject_Z_plus. change (inject_Z 1) with 1. lra. }
  assert (H2' : inject_Z z < inject_Z (Qceiling x + 1)).
  { rewrite inject_Z_plus. change (inject_Z 1) with 1. lra. }
  rewrite <- Zlt_Qlt in H1', H2'. lia.
Qed.









(** ** The button handler as a whole *)

Lemma finish_cases (inp : inputs) (v : Q) :
  let energy := estimate_energy_potential v (area_m2 inp) (panel_efficiency inp) in
  let panels := Qceiling (energy / 365 / (panel_wattage * PSH / 1000)) in
  let inverter := Py.round2 (energy / 365 / PSH) in
  let battery := Py.round2 (energy / 365 * 0.5) in
  let cost := total_cost panels battery in
  finish inp v =
  [Call Fn_estimate_energy_potential; Call Fn_size_components; Call Fn_calculate_lcoe] ++
  match calculate_lcoe cost energy default_lifetime with
  | Raise x => [St (ErrorMsg x)]
  | Ok lcoe =>
      Call Fn_calculate_discounted_payback ::
      match calculate_discounted_payback cost (energy * 0.15) (interest_rate inp)
              default_lifetime with
      | Raise x => [St (ErrorMsg x)]
      | Ok payback =>
          [St Subheader; St (MdIrradiance v); St (MdEnergy energy);
           St (MdComponents panels inverter battery); St (MdCost cost);
           St (MdLcoe lcoe); St (MdPayback payback)]
      end
  end.
Proof.
  intros energy panels inverter battery cost.
  unfold finish, report_estimates, IO.try_except, IO.bind.
  unfold IO.call at 1. cbn [app].
  unfold IO.call at 1. rewrite size_components_ok. cbn [app].
  fold energy panels inverter battery cost.
  unfold IO.call at 1.
  destruct (calculate_lcoe cost energy default_lifetime) as [lcoe|x]; [|reflexivity].
  unfold IO.call at 1.
  destruct (calculate_discounted_payback cost (energy * 0.15) (interest_rate inp)
              default_lifetime) as [payback|x]; reflexivity.
Qed.

Lemma run_after_acquire (sv : services) (inp : inputs) (lat lon v : Q) (acq : list event) :
  geocode sv (location inp) = Match lat lon ->
  acquire_irradiance sv lat lon [] = (Ok v, acq) ->
  run sv inp
  = [Geocode (location inp); St (MdCoordinates lat lon)] ++ acq ++ finish inp v.
Proof.
  intros Hgeo Hacq. rewrite (run_shape sv inp lat lon Hgeo).
  rewrite acquire_irradiance_run in Hacq.
  destruct (fst (get_irradiance_pvgis sv lat lon [])) as [v1|e1].
  - injection Hacq as <- <-. reflexivity.
  - destruct (fst (get_irradiance_nasa sv lat lon [])) as [v2|e2]; [|discriminate].
    injection Hacq as <- <-. reflexivity.
Qed.

Lemma energy_positive (v area efficiency : Q) :
  0 < v -> 0 < area -> 0 < efficiency -> 0 < estimate_energy_potential v area efficiency.
Proof.
  intros Hv Ha He. unfold estimate_energy_potential.
  assert (H1 : 0 < v * 365) by lra.
  assert (H2 : 0 < v * 365 * area) by (apply Qmult_lt_0_compat; assumption).
  apply Qmult_lt_0_compat; assumption.
Qed.



(** X14. No input is checked before the division in [calculate_lcoe]: when
    the irradiance obtained, the area or the efficiency is 0, the run calls
    [estimate_energy_potential], [size_components] and [calculate_lcoe] and
    then ends with the ZeroDivisionError line; no result line is shown. *)
Theorem zero_energy_run_fails
    (sv : services) (inp : inputs) (lat lon v : Q) (acq : list event) :
  geocode sv (location inp) = Match lat lon ->
  acquire_irradiance sv lat lon [] = (Ok v, acq) ->
  v == 0 \/ area_m2 inp == 0 \/ panel_efficiency inp == 0 ->
  run sv inp =
  [Geocode (location inp); St (MdCoordinates lat lon)] ++ acq ++
  [Call Fn_estimate_energy_potential; Call Fn_size_components; Call Fn_calculate_lcoe;
   St (ErrorMsg ZeroDivisionError)].
Proof.
  intros Hgeo Hacq Hzero.
  rewrite (run_after_acquire sv inp lat lon v acq Hgeo Hacq).
  pose proof (finish_cases inp v) as Hfin. cbv zeta in Hfin.
  rewrite calculate_lcoe_zero_energy in Hfin.
  - rewrite Hfin. reflexivity.
  - unfold estimate_energy_potential.
    destruct Hzero as [H|[H|H]]; rewrite H; ring.
Qed.

Lemma zero_energy_run_fails_witness :
  run services_pvgis_up
      {| location := "Accra, Ghana"; area_m2 := 0; interest_rate := 0.08;
         panel_efficiency := 0.18 |} =
  [Geocode "Accra, Ghana"; St (MdCoordinates 5.56 (-0.2))] ++
  [HttpGet PVGIS 5.56 (-0.2); St SuccessPvgis] ++
  [Call Fn_estimate_energy_potential; Call Fn_size_components; Call Fn_calculate_lcoe;
   St (ErrorMsg ZeroDivisionError)].
Proof.
  apply (zero_energy_run_fails services_pvgis_up
           {| location := "Accra, Ghana"; area_m2 := 0; interest_rate := 0.08;
              panel_efficiency := 0.18 |}
           5.56 (-0.2) 5.00 [HttpGet PVGIS 5.56 (-0.2); St SuccessPvgis]).
  - reflexivity.
  - vm_compute. reflexivity.
  - right. left. reflexivity.
Defined.

(** X15. The handler never lets an exception escape, and a run shows either
    the whole results block or exactly one error line, never both and
    never part of the block: every trace is a prefix without result or
    error lines followed by the seven result lines, or by one error
    line. *)
Theorem run_all_or_error (sv : services) (inp : inputs) :
  (forall t, fst (on_estimate_click sv inp t) = Ok tt)
  /\ exists pre,
       Forall (fun e => ~ result_line e /\ ~ error_line e) pre
       /\ ((exists v energy panels inverter battery cost lcoe payback,
              run sv inp =
              pre ++ [St Subheader; St (MdIrradiance v); St (MdEnergy energy);
                      St (MdComponents panels inverter battery); St (MdCost cost);
                      St (MdLcoe lcoe); St (MdPayback payback)])
           \/ (exists x, run sv inp = pre ++ [St (ErrorMsg x)])).
Proof.
  split.
  { intro t. unfold on_estimate_click, IO.try_except.
    destruct (estimate_body sv inp t) as [[[]|x] t']; reflexivity. }
  assert (Hquiet : forall l,
            Forall (fun e => match e with St (MdCoordinates _ _) | St SuccessPvgis
                                        | St WarningNasaFallback | Geocode _
                                        | HttpGet _ _ _ | Call _ => True
                                        | _ => False end) l ->
            Forall (fun e => ~ result_line e /\ ~ error_line e) l).
  { intros l Hl. apply Forall_impl with (2 := Hl).
    intros e He. destruct e as [loc|s la lo|f|u]; try destruct u;
      cbn in He |- *; try contradiction; split; intro Hx; exact Hx. }
  assert (Hfinish : forall v pre0,
    Forall (fun e => match e with St (MdCoordinates _ _) | St SuccessPvgis
                                | St WarningNasaFallback | Geocode _
                                | HttpGet _ _ _ | Call _ => True
                                | _ => False end) pre0 ->
    run sv inp = pre0 ++ finish inp v ->
    exists pre,
       Forall (fun e => ~ result_line e /\ ~ error_line e) pre
       /\ ((exists v energy panels inverter battery cost lcoe payback,
              run sv inp =
              pre ++ [St Subheader; St (MdIrradiance v); St (MdEnergy energy);
                      St (MdComponents panels inverter battery); St (MdCost cost);
                      St (MdLcoe lcoe); St (MdPayback payback)])
           \/ (exists x, run sv inp = pre ++ [St (ErrorMsg x)]))).
  { intros v pre0 Hpre0 Hrun.
    pose proof (finish_cases inp v) as Hfin. cbv zeta in Hfin.
    rewrite Hfin in Hrun. clear Hfin.
    destruct (calculate_lcoe _ _ _) as [lcoe|x].
    - destruct (calculate_discounted_payback _ _ _ _) as [payback|x].
      + exists (pre0 ++ [Call Fn_estimate_energy_potential; Call Fn_size_components;
                         Call Fn_calculate_lcoe; Call Fn_calculate_discounted_payback]).
        split.
        * apply Hquiet. apply Forall_app. split; [exact Hpre0|]. repeat constructor.
        * left. do 8 eexists. rewrite Hrun. rewrite <- app_assoc. reflexivity.
      + exists (pre0 ++ [Call Fn_estimate_energy_potential; Call Fn_size_components;
                         Call Fn_calculate_lcoe; Call Fn_calculate_discounted_payback]).
        split.
        * apply Hquiet. apply Forall_app. split; [exact Hpre0|]. repeat constructor.
        * right. exists x. rewrite Hrun. rewrite <- app_assoc. reflexivity.
    - exists (pre0 ++ [Call Fn_estimate_energy_potential; Call Fn_size_components;
                       Call Fn_calculate_lcoe]).
      split.
      + apply Hquiet. apply Forall_app. split; [exact Hpre0|]. repeat constructor.
      + right. exists x. rewrite Hrun. rewrite <- app_assoc. reflexivity. }
  destruct (geocode sv (location inp)) as [| |lat lon] eqn:Hgeo.
  - destruct (run_without_coordinates sv inp) as [x Hx].
    { intros lat lon. rewrite Hgeo. discriminate. }
    exists [Geocode (location inp)]. split.
    + apply Hquiet. repeat constructor.
    + right. exists x. exact Hx.
  - destruct (run_without_coordinates sv inp) as [x Hx].
    { intros lat lon. rewrite Hgeo. discriminate. }
    exists [Geocode (location inp)]. split.
    + apply Hquiet. repeat constructor.
    + right. exists x. exact Hx.
  - pose proof (run_shape sv inp lat lon Hgeo) as Hrun.
    destruct (fst (get_irradiance_pvgis sv lat lon [])) as [v|e].
    + apply (Hfinish v [Geocode (location inp); St (MdCoordinates lat lon);
                        HttpGet PVGIS lat lon; St SuccessPvgis]).
      * repeat constructor.
      * exact Hrun.
    + destruct (fst (get_irradiance_nasa sv lat lon [])) as [v|e'].
      * apply (Hfinish v [Geocode (location inp); St (MdCoordinates lat lon);
                          HttpGet PVGIS lat lon; HttpGet NASA_POWER lat lon;
                          St WarningNasaFallback]).
        -- repeat constructor.
        -- exact Hrun.
      * exists [Geocode (location inp); St (MdCoordinates lat lon);
                HttpGet PVGIS lat lon; HttpGet NASA_POWER lat lon].
        split.
        -- apply Hquiet. repeat constructor.
        -- right. exists e'. exact Hrun.
Qed.

(** ** The lifetime parameter *)




